(** * The CSS selector builder of [05-objects-tasks.js]

    A shallow embedding of the classes [CssSelector] and [CssCombine] and of
    the facade object [cssSelectorBuilder], followed by the properties of the
    builder: rendering, the two validation errors, error atomicity,
    combination, freshness of the objects the facade hands out, and purity
    of [stringify].

    JavaScript objects live in a store and are named by references, so that
    "the method mutates [this] and returns it" and "two calls of the facade
    give two objects" are statements about the model and not conventions of
    it.  A method is a function from the store to a completion (a value or
    a thrown exception) and the store at that point: an exception does not
    roll anything back, it leaves the store as the statements executed
    before the [throw] made it. *)

From stdpp Require Import base option list gmap strings.

(** ** Values, truthiness, template literals *)

(** A property that the constructor does not initialise reads [undefined]
    until a method assigns it ([None]); the values the builder receives are
    strings. *)
Definition truthy (v : option string) : bool :=
  match v with
  | None => false
  | Some "" => false
  | Some (String _ _) => true
  end.

(** [arr.length] in a condition: a number is truthy unless it is zero. *)
Definition truthy_length (arr : list string) : bool :=
  negb (Nat.eqb (length arr) 0).

(** [`${v}`] for a property. *)
Definition to_string (v : option string) : string :=
  match v with
  | None => "undefined"
  | Some s => s
  end.

(** ** Objects and the store *)

(** The own properties of an instance of each class. *)
Record CssSelectorProps := {
  cssElement : option string;
  cssId : option string;
  cssClasses : list string;
  cssAttribute : list string;
  cssPseudoClass : list string;
  cssPseudoElement : option string
}.

Record CssCombineProps := { cssString : string }.

Inductive object :=
| Selector (s : CssSelectorProps)
| Combine (c : CssCombineProps).

Abbreviation ref := positive.
Abbreviation store := (gmap positive object).

(** The builder throws [new Error(message)] with one of two messages; a
    call of a method that the receiver does not have is a [TypeError]. *)
Inductive exn :=
| Error (message : string)
| TypeError.

Definition DuplicateError : exn :=
  Error "Element, id and pseudo-element should not occur more then one time inside the selector".

Definition OrderError : exn :=
  Error "Selector parts should be arranged in the following order: element, id, class, attribute, pseudo-class, pseudo-element".

Inductive completion (A : Type) :=
| Normal (a : A)
| Throw (e : exn).

Arguments Normal {A} a.
Arguments Throw {A} e.

Definition js (A : Type) : Type := store -> completion A * store.

Definition ret {A} (a : A) : js A := fun h => (Normal a, h).

Definition throw {A} (e : exn) : js A := fun h => (Throw e, h).

Definition bind {A B} (m : js A) (k : A -> js B) : js B :=
  fun h =>
    match m h with
    | (Normal a, h') => k a h'
    | (Throw e, h') => (Throw e, h')
    end.

Notation "'let!' x ':=' m 'in' k" := (bind m (fun x => k))
  (at level 10, x name, m at level 100, k at level 200).
Notation "m ';;' k" := (bind m (fun _ => k))
  (at level 100, k at level 200, right associativity).

Definition deref (l : ref) : js object :=
  fun h =>
    match h !! l with
    | Some o => (Normal o, h)
    | None => (Throw TypeError, h)
    end.

Definition assign (l : ref) (o : object) : js unit :=
  fun h => (Normal tt, <[l := o]> h).

Definition new (o : object) : js ref :=
  fun h => let l := fresh (dom h) in (Normal l, <[l := o]> h).

(** ** class CssSelector *)

Module CssSelector.

(** The receiver of a method of the class. *)
Definition self (this : ref) : js CssSelectorProps :=
  let! o := deref this in
  match o with
  | Selector s => ret s
  | Combine _ => throw TypeError
  end.

(** [new CssSelector()]: the constructor initialises the three arrays and
    leaves the other three properties undefined. *)
Definition constructor : js ref :=
  new (Selector {| cssElement := None; cssId := None; cssClasses := [];
                   cssAttribute := []; cssPseudoClass := [];
                   cssPseudoElement := None |}).

Definition element (this : ref) (value : string) : js ref :=
  let! s := self this in
  if truthy (cssElement s) then throw DuplicateError else
  if truthy (cssId s) || truthy_length (cssClasses s)
     || truthy_length (cssAttribute s) || truthy_length (cssPseudoClass s)
     || truthy (cssPseudoElement s)
  then throw OrderError else
  assign this (Selector {| cssElement := Some value; cssId := cssId s;
                           cssClasses := cssClasses s;
                           cssAttribute := cssAttribute s;
                           cssPseudoClass := cssPseudoClass s;
                           cssPseudoElement := cssPseudoElement s |});;
  ret this.

Definition id (this : ref) (value : string) : js ref :=
  let! s := self this in
  if truthy (cssId s) then throw DuplicateError else
  if truthy_length (cssClasses s) || truthy_length (cssAttribute s)
     || truthy_length (cssPseudoClass s) || truthy (cssPseudoElement s)
  then throw OrderError else
  assign this (Selector {| cssElement := cssElement s; cssId := Some value;
                           cssClasses := cssClasses s;
                           cssAttribute := cssAttribute s;
                           cssPseudoClass := cssPseudoClass s;
                           cssPseudoElement := cssPseudoElement s |});;
  ret this.

Definition class (this : ref) (value : string) : js ref :=
  let! s := self this in
  if truthy_length (cssAttribute s) || truthy_length (cssPseudoClass s)
     || truthy (cssPseudoElement s)
  then throw OrderError else
  assign this (Selector {| cssElement := cssElement s; cssId := cssId s;
                           cssClasses := cssClasses s ++ [value];
                           cssAttribute := cssAttribute s;
                           cssPseudoClass := cssPseudoClass s;
                           cssPseudoElement := cssPseudoElement s |});;
  ret this.

Definition attr (this : ref) (value : string) : js ref :=
  let! s := self this in
  if truthy_length (cssPseudoClass s) || truthy (cssPseudoElement s)
  then throw OrderError else
  assign this (Selector {| cssElement := cssElement s; cssId := cssId s;
                           cssClasses := cssClasses s;
                           cssAttribute := cssAttribute s ++ [value];
                           cssPseudoClass := cssPseudoClass s;
                           cssPseudoElement := cssPseudoElement s |});;
  ret this.

Definition pseudoClass (this : ref) (value : string) : js ref :=
  let! s := self this in
  if truthy (cssPseudoElement s) then throw OrderError else
  assign this (Selector {| cssElement := cssElement s; cssId := cssId s;
                           cssClasses := cssClasses s;
                           cssAttribute := cssAttribute s;
                           cssPseudoClass := cssPseudoClass s ++ [value];
                           cssPseudoElement := cssPseudoElement s |});;
  ret this.

Definition pseudoElement (this : ref) (value : string) : js ref :=
  let! s := self this in
  if truthy (cssPseudoElement s) then throw DuplicateError else
  assign this (Selector {| cssElement := cssElement s; cssId := cssId s;
                           cssClasses := cssClasses s;
                           cssAttribute := cssAttribute s;
                           cssPseudoClass := cssPseudoClass s;
                           cssPseudoElement := Some value |});;
  ret this.

(** The body of [stringify] on the properties of the receiver.  The local
    [string] grows by [+=]; [forEach] visits an array from index 0 upwards,
    and an array, empty or not, is truthy. *)
Definition render (s : CssSelectorProps) : string :=
  let string := "" in
  let string :=
    if truthy (cssElement s) then string +:+ to_string (cssElement s)
    else string in
  let string :=
    if truthy (cssId s) then string +:+ "#" +:+ to_string (cssId s)
    else string in
  let string :=
    fold_left (fun string e => string +:+ "." +:+ e) (cssClasses s) string in
  let string :=
    fold_left (fun string e => string +:+ "[" +:+ e +:+ "]")
              (cssAttribute s) string in
  let string :=
    fold_left (fun string e => string +:+ ":" +:+ e)
              (cssPseudoClass s) string in
  let string :=
    if truthy (cssPseudoElement s)
    then string +:+ "::" +:+ to_string (cssPseudoElement s)
    else string in
  string.

Definition stringify (this : ref) : js string :=
  let! s := self this in
  ret (render s).

End CssSelector.

(** ** class CssCombine *)

Module CssCombine.

Definition self (this : ref) : js CssCombineProps :=
  let! o := deref this in
  match o with
  | Combine c => ret c
  | Selector _ => throw TypeError
  end.

Definition constructor (string1 combinator string2 : string) : js ref :=
  new (Combine
         {| cssString := string1 +:+ " " +:+ combinator +:+ " " +:+ string2 |}).

Definition stringify (this : ref) : js string :=
  let! c := self this in
  ret (cssString c).

End CssCombine.

(** [x.stringify()] where [x] is any object: the method is the one of the
    class of [x]. *)
Definition call_stringify (x : ref) : js string :=
  let! o := deref x in
  match o with
  | Selector _ => CssSelector.stringify x
  | Combine _ => CssCombine.stringify x
  end.

(** ** const cssSelectorBuilder *)

Module cssSelectorBuilder.

Definition element (value : string) : js ref :=
  let! t := CssSelector.constructor in
  CssSelector.element t value.

Definition id (value : string) : js ref :=
  let! t := CssSelector.constructor in
  CssSelector.id t value.

Definition class (value : string) : js ref :=
  let! t := CssSelector.constructor in
  CssSelector.class t value.

Definition attr (value : string) : js ref :=
  let! t := CssSelector.constructor in
  CssSelector.attr t value.

Definition pseudoClass (value : string) : js ref :=
  let! t := CssSelector.constructor in
  CssSelector.pseudoClass t value.

Definition pseudoElement (value : string) : js ref :=
  let! t := CssSelector.constructor in
  CssSelector.pseudoElement t value.

Definition combine (selector1 : ref) (combinator : string) (selector2 : ref)
  : js ref :=
  let! string1 := call_stringify selector1 in
  let! string2 := call_stringify selector2 in
  CssCombine.constructor string1 combinator string2.

End cssSelectorBuilder.

(** ** Chains of calls *)

(** The six categories of selector parts, in the order of the grammar
    [element#id.class[attr]:pseudoClass::pseudoElement]. *)
Inductive category :=
| Element | Id | Class | Attr | PseudoClass | PseudoElement.

Definition rank (k : category) : nat :=
  match k with
  | Element => 0 | Id => 1 | Class => 2
  | Attr => 3 | PseudoClass => 4 | PseudoElement => 5
  end.

(** One call [.k(value)] of a chain. *)
Record call := Call { target : category; argument : string }.

(** [x.k(value)] on a selector object. *)
Definition method (k : category) : ref -> string -> js ref :=
  match k with
  | Element => CssSelector.element
  | Id => CssSelector.id
  | Class => CssSelector.class
  | Attr => CssSelector.attr
  | PseudoClass => CssSelector.pseudoClass
  | PseudoElement => CssSelector.pseudoElement
  end.

(** [cssSelectorBuilder.k(value)]. *)
Definition factory (k : category) : string -> js ref :=
  match k with
  | Element => cssSelectorBuilder.element
  | Id => cssSelectorBuilder.id
  | Class => cssSelectorBuilder.class
  | Attr => cssSelectorBuilder.attr
  | PseudoClass => cssSelectorBuilder.pseudoClass
  | PseudoElement => cssSelectorBuilder.pseudoElement
  end.

(** [x.k1(v1).k2(v2)...]: each call is made on what the one before it
    returned. *)
Fixpoint chain (x : ref) (cs : list call) : js ref :=
  match cs with
  | [] => ret x
  | c :: cs => let! y := method (target c) x (argument c) in chain y cs
  end.

(** [builder.k1(v1).k2(v2)...]: a chain that starts at the facade. *)
Definition build (c : call) (cs : list call) : js ref :=
  let! x := factory (target c) (argument c) in chain x cs.

(** ** The validation table *)

(** What the conditions of the methods test: a property that holds a
    string is tested for truthiness, an array for a non-zero length. *)
Definition populated (k : category) (s : CssSelectorProps) : bool :=
  match k with
  | Element => truthy (cssElement s)
  | Id => truthy (cssId s)
  | Class => truthy_length (cssClasses s)
  | Attr => truthy_length (cssAttribute s)
  | PseudoClass => truthy_length (cssPseudoClass s)
  | PseudoElement => truthy (cssPseudoElement s)
  end.

(** The categories that take one value; the others are arrays. *)
Definition singleton (k : category) : bool :=
  match k with
  | Element | Id | PseudoElement => true
  | Class | Attr | PseudoClass => false
  end.

Definition categories : list category :=
  [Element; Id; Class; Attr; PseudoClass; PseudoElement].

(** The condition of the order check of a call for category [k]. *)
Definition later_populated (k : category) (s : CssSelectorProps) : bool :=
  existsb (fun j => Nat.ltb (rank k) (rank j) && populated j s) categories.

(** The exception a call for category [k] ends with, if any. *)
Definition verdict (k : category) (s : CssSelectorProps) : option exn :=
  if singleton k && populated k s then Some DuplicateError
  else if later_populated k s then Some OrderError
  else None.

(** The properties after a call for category [k] that passed its checks. *)
Definition store_part (k : category) (value : string) (s : CssSelectorProps)
  : CssSelectorProps :=
  match k with
  | Element =>
      {| cssElement := Some value; cssId := cssId s;
         cssClasses := cssClasses s; cssAttribute := cssAttribute s;
         cssPseudoClass := cssPseudoClass s;
         cssPseudoElement := cssPseudoElement s |}
  | Id =>
      {| cssElement := cssElement s; cssId := Some value;
         cssClasses := cssClasses s; cssAttribute := cssAttribute s;
         cssPseudoClass := cssPseudoClass s;
         cssPseudoElement := cssPseudoElement s |}
  | Class =>
      {| cssElement := cssElement s; cssId := cssId s;
         cssClasses := cssClasses s ++ [value];
         cssAttribute := cssAttribute s;
         cssPseudoClass := cssPseudoClass s;
         cssPseudoElement := cssPseudoElement s |}
  | Attr =>
      {| cssElement := cssElement s; cssId := cssId s;
         cssClasses := cssClasses s;
         cssAttribute := cssAttribute s ++ [value];
         cssPseudoClass := cssPseudoClass s;
         cssPseudoElement := cssPseudoElement s |}
  | PseudoClass =>
      {| cssElement := cssElement s; cssId := cssId s;
         cssClasses := cssClasses s; cssAttribute := cssAttribute s;
         cssPseudoClass := cssPseudoClass s ++ [value];
         cssPseudoElement := cssPseudoElement s |}
  | PseudoElement =>
      {| cssElement := cssElement s; cssId := cssId s;
         cssClasses := cssClasses s; cssAttribute := cssAttribute s;
         cssPseudoClass := cssPseudoClass s;
         cssPseudoElement := Some value |}
  end.

(** The properties the constructor leaves. *)
Definition empty_props : CssSelectorProps :=
  {| cssElement := None; cssId := None; cssClasses := [];
     cssAttribute := []; cssPseudoClass := []; cssPseudoElement := None |}.

(** The string an object renders as. *)
Definition rendering (o : object) : string :=
  match o with
  | Selector s => CssSelector.render s
  | Combine c => cssString c
  end.

(** A chain on the properties alone: the properties after the calls when
    each of them passes its checks, nothing when one of them throws. *)
Fixpoint steps (cs : list call) (s : CssSelectorProps)
  : option CssSelectorProps :=
  match cs with
  | [] => Some s
  | c :: cs =>
      match verdict (target c) s with
      | Some _ => None
      | None => steps cs (store_part (target c) (argument c) s)
      end
  end.

(** The value a singleton category holds. *)
Definition stored (k : category) (s : CssSelectorProps) : option string :=
  match k with
  | Element => cssElement s
  | Id => cssId s
  | PseudoElement => cssPseudoElement s
  | Class | Attr | PseudoClass => None
  end.

(** The properties without the value of a singleton category. *)
Definition unset (k : category) (s : CssSelectorProps) : CssSelectorProps :=
  match k with
  | Element =>
      {| cssElement := None; cssId := cssId s;
         cssClasses := cssClasses s; cssAttribute := cssAttribute s;
         cssPseudoClass := cssPseudoClass s;
         cssPseudoElement := cssPseudoElement s |}
  | Id =>
      {| cssElement := cssElement s; cssId := None;
         cssClasses := cssClasses s; cssAttribute := cssAttribute s;
         cssPseudoClass := cssPseudoClass s;
         cssPseudoElement := cssPseudoElement s |}
  | PseudoElement =>
      {| cssElement := cssElement s; cssId := cssId s;
         cssClasses := cssClasses s; cssAttribute := cssAttribute s;
         cssPseudoClass := cssPseudoClass s;
         cssPseudoElement := None |}
  | Class | Attr | PseudoClass => s
  end.

(** The properties of a builder that holds the one part [k(value)] and
    nothing else. *)
Definition alone (k : category) (value : string) : CssSelectorProps :=
  match k with
  | Element =>
      {| cssElement := Some value; cssId := None; cssClasses := [];
         cssAttribute := []; cssPseudoClass := []; cssPseudoElement := None |}
  | Id =>
      {| cssElement := None; cssId := Some value; cssClasses := [];
         cssAttribute := []; cssPseudoClass := []; cssPseudoElement := None |}
  | Class =>
      {| cssElement := None; cssId := None; cssClasses := [value];
         cssAttribute := []; cssPseudoClass := []; cssPseudoElement := None |}
  | Attr =>
      {| cssElement := None; cssId := None; cssClasses := [];
         cssAttribute := [value]; cssPseudoClass := [];
         cssPseudoElement := None |}
  | PseudoClass =>
      {| cssElement := None; cssId := None; cssClasses := [];
         cssAttribute := []; cssPseudoClass := [value];
         cssPseudoElement := None |}
  | PseudoElement =>
      {| cssElement := None; cssId := None; cssClasses := [];
         cssAttribute := []; cssPseudoClass := [];
         cssPseudoElement := Some value |}
  end.

(** ** What a chain supplies, and its rendering *)

(** The values a chain supplies for a category, in the order of the calls. *)
Fixpoint values (k : category) (cs : list call) : list string :=
  match cs with
  | [] => []
  | c :: cs =>
      if Nat.eqb (rank (target c)) (rank k) then argument c :: values k cs
      else values k cs
  end.

(** Concatenation of a list of parts. *)
Fixpoint join (l : list string) : string :=
  match l with
  | [] => ""
  | a :: l => a +:+ join l
  end.

(** The part of a singleton category, as the specification words it: the
    marker and the value, and nothing when the category is absent. *)
Definition marked (marker : string) (v : option string) : string :=
  match v with
  | Some s => marker +:+ s
  | None => ""
  end.

(** The same, with the empty string counted as absent. *)
Definition marked_nonempty (marker : string) (v : option string) : string :=
  match v with
  | Some (String a s) => marker +:+ String a s
  | Some "" | None => ""
  end.

(** The rendering the specification describes for a chain of calls: the
    parts in the fixed order of the categories. *)
Definition claimed_rendering (cs : list call) : string :=
  marked "" (last (values Element cs))
  +:+ marked "#" (last (values Id cs))
  +:+ join (map (fun e => "." +:+ e) (values Class cs))
  +:+ join (map (fun e => "[" +:+ e +:+ "]") (values Attr cs))
  +:+ join (map (fun e => ":" +:+ e) (values PseudoClass cs))
  +:+ marked "::" (last (values PseudoElement cs)).

(** The same rendering, but a singleton category whose last value is the
    empty string has no part. *)
Definition rendering_of_calls (cs : list call) : string :=
  marked_nonempty "" (last (values Element cs))
  +:+ marked_nonempty "#" (last (values Id cs))
  +:+ join (map (fun e => "." +:+ e) (values Class cs))
  +:+ join (map (fun e => "[" +:+ e +:+ "]") (values Attr cs))
  +:+ join (map (fun e => ":" +:+ e) (values PseudoClass cs))
  +:+ marked_nonempty "::" (last (values PseudoElement cs)).

(** The calls of a chain respect the order of the categories. *)
Fixpoint ordered (cs : list call) : bool :=
  match cs with
  | [] => true
  | c :: cs' =>
      match cs' with
      | [] => true
      | d :: _ => Nat.leb (rank (target c)) (rank (target d)) && ordered cs'
      end
  end.

(** The value of a singleton property after a chain: the value supplied
    last, or the old one. *)
Definition latest (l : list string) (old : option string) : option string :=
  match last l with
  | Some v => Some v
  | None => old
  end.

(** ** Well-formed chains, and the part of one call *)

(** A category gets at most one value from a chain. *)
Definition once (k : category) (cs : list call) : bool :=
  Nat.leb (length (values k cs)) 1.

(** The calls are in the order of the categories, and the element, the id
    and the pseudo-element occur at most once. *)
Definition well_formed (cs : list call) : bool :=
  ordered cs && once Element cs && once Id cs && once PseudoElement cs.

(** What one call adds to the rendering: its value with the marker of its
    category; for the id and the pseudo-element nothing at all when the
    value is the empty string. *)
Definition fragment (c : call) : string :=
  match target c with
  | Element => argument c
  | Id => marked_nonempty "#" (Some (argument c))
  | Class => "." +:+ argument c
  | Attr => "[" +:+ argument c +:+ "]"
  | PseudoClass => ":" +:+ argument c
  | PseudoElement => marked_nonempty "::" (Some (argument c))
  end.

(** ** Programs over the objects *)

(** What a program can do with the objects it holds: call a builder
    method, render, ask the facade for a builder, combine. *)
Inductive action :=
| Invoke (x : ref) (k : category) (value : string)
| Render (x : ref)
| Create (k : category) (value : string)
| Join (selector1 : ref) (combinator : string) (selector2 : ref).

(** The store after an action, whether it returned or threw. *)
Definition perform (h : store) (a : action) : store :=
  match a with
  | Invoke x k v => (method k x v h).2
  | Render x => (call_stringify x h).2
  | Create k v => (factory k v h).2
  | Join l c r => (cssSelectorBuilder.combine l c r h).2
  end.

(** ** Stores of some chains *)

(** The store of a builder that holds exactly [div]. *)
Definition store_div : store :=
  (build (Call Element "div") [] ∅).2.

(** The store of the builder [div.container]. *)
Definition store_div_container : store :=
  (build (Call Element "div") [Call Class "container"] ∅).2.

(** Two builders, [div#main] at 1 and [table#data] at 2. *)
Definition store_two : store :=
  ((build (Call Element "div") [Call Id "main"];;
    build (Call Element "table") [Call Id "data"]) ∅).2.

(** The store after [combine(div#main, '+', table#data)]: the result is
    at 3. *)
Definition store_combined : store :=
  (cssSelectorBuilder.combine 1%positive "+" 2%positive store_two).2.

(** Then the left operand gets a class, and the right one is asked, in
    vain, for a second element. *)
Definition store_combined_later : store :=
  fold_left perform
    [Invoke 1%positive Class "container"; Invoke 2%positive Element "p"]
    store_combined.

(** The store of the builder made by [id('')]. *)
Definition store_empty_id : store := (build (Call Id "") [] ∅).2.

(** The store of the builder made by [pseudoElement('')]. *)
Definition store_empty_pseudo : store :=
  (build (Call PseudoElement "") [] ∅).2.

(** The store of the builder made by [element('').class('container')]. *)
Definition store_empty_element_container : store :=
  (build (Call Element "") [Call Class "container"] ∅).2.

(** * Properties *)

(** ** The methods, as one table-driven step *)

Lemma method_unfold k x v h :
  method k x v h =
    match h !! x with
    | Some (Selector s) =>
        match verdict k s with
        | Some e => (Throw e, h)
        | None => (Normal x, <[x := Selector (store_part k v s)]> h)
        end
    | _ => (Throw TypeError, h)
    end.
Proof.
  destruct k; cbn [method];
    unfold CssSelector.element, CssSelector.id, CssSelector.class,
      CssSelector.attr, CssSelector.pseudoClass, CssSelector.pseudoElement,
      CssSelector.self, bind, deref;
    destruct (h !! x) as [[s|c]|]; try reflexivity;
    unfold verdict, later_populated, ret, throw, assign; cbn;
    rewrite ?orb_false_r;
    repeat match goal with
           | |- context [truthy ?a] => destruct (truthy a); cbn; try reflexivity
           | |- context [truthy_length ?a] =>
               destruct (truthy_length a); cbn; try reflexivity
           end.
Qed.

Lemma stringify_unfold x h :
  call_stringify x h =
    match h !! x with
    | Some o => (Normal (rendering o), h)
    | None => (Throw TypeError, h)
    end.
Proof.
  unfold call_stringify, bind, deref.
  destruct (h !! x) as [[s|c]|] eqn:E; try reflexivity.
  - unfold CssSelector.stringify, CssSelector.self, bind, deref. now rewrite E.
  - unfold CssCombine.stringify, CssCombine.self, bind, deref. now rewrite E.
Qed.

Lemma verdict_empty k : verdict k empty_props = None.
Proof. now destruct k. Qed.

Lemma fresh_unused (h : store) : h !! fresh (dom h) = None.
Proof. apply not_elem_of_dom, is_fresh. Qed.

Lemma factory_unfold k v h :
  factory k v h =
    (Normal (fresh (dom h)),
     <[fresh (dom h) := Selector (store_part k v empty_props)]> h).
Proof.
  assert (E : factory k v h =
              (let! t := CssSelector.constructor in method k t v) h)
    by now destruct k.
  rewrite E. unfold bind, CssSelector.constructor, new. cbv zeta.
  rewrite method_unfold, lookup_insert_eq. fold empty_props.
  now rewrite verdict_empty, insert_insert_eq.
Qed.

Lemma combine_unfold l c r h ol or :
  h !! l = Some ol -> h !! r = Some or ->
  cssSelectorBuilder.combine l c r h =
    (Normal (fresh (dom h)),
     <[fresh (dom h) :=
         Combine {| cssString :=
                      rendering ol +:+ " " +:+ c +:+ " " +:+ rendering or |}]> h).
Proof.
  intros El Er. unfold cssSelectorBuilder.combine, bind.
  rewrite stringify_unfold, El. cbv beta iota.
  rewrite stringify_unfold, Er. reflexivity.
Qed.

(** ** Frame: a call changes the receiver and nothing else *)

Lemma method_frame k x v h y :
  y <> x -> (method k x v h).2 !! y = h !! y.
Proof.
  intros N. rewrite method_unfold.
  destruct (h !! x) as [[s|c]|]; try reflexivity.
  destruct (verdict k s); cbn; [reflexivity|].
  now apply lookup_insert_ne.
Qed.

Lemma method_returns_this k x v h y h' :
  method k x v h = (Normal y, h') -> y = x.
Proof.
  rewrite method_unfold.
  destruct (h !! x) as [[s|c]|]; try discriminate.
  destruct (verdict k s); [discriminate|]. now intros [= <- _].
Qed.

Lemma chain_frame cs : forall x h y,
  y <> x -> (chain x cs h).2 !! y = h !! y.
Proof.
  induction cs as [|c cs IH]; intros x h y N; [reflexivity|].
  cbn [chain]. unfold bind.
  destruct (method (target c) x (argument c) h) as [[z|e] h1] eqn:E.
  - pose proof (method_returns_this _ _ _ _ _ _ E) as ->.
    rewrite IH by assumption.
    change h1 with (Normal x, h1).2. rewrite <- E. now apply method_frame.
  - change h1 with (@Throw ref e, h1).2. rewrite <- E. now apply method_frame.
Qed.

(** A combined selector is out of reach of every method of the builder. *)
Lemma method_keeps_combine k x v h p c :
  h !! p = Some (Combine c) -> (method k x v h).2 !! p = Some (Combine c).
Proof.
  intros Hp. destruct (decide (p = x)) as [->|N].
  - rewrite method_unfold, Hp. exact Hp.
  - now rewrite method_frame.
Qed.

(** ** The pure step function of a chain *)

Lemma chain_normal cs : forall x h s y h',
  h !! x = Some (Selector s) ->
  chain x cs h = (Normal y, h') ->
  y = x /\ exists s', steps cs s = Some s' /\ h' = <[x := Selector s']> h.
Proof.
  induction cs as [|c cs IH]; intros x h s y h' Hx.
  - cbn. intros [= <- <-]. split; [reflexivity|].
    exists s. split; [reflexivity|]. symmetry. now apply insert_id.
  - cbn [chain steps]. unfold bind. rewrite method_unfold, Hx.
    destruct (verdict (target c) s); [discriminate|].
    intros E. eapply IH in E; [|apply lookup_insert_eq].
    destruct E as [-> (s' & Hs & ->)]. split; [reflexivity|].
    exists s'. split; [assumption|]. apply insert_insert_eq.
Qed.

Lemma chain_steps cs : forall x h s s',
  h !! x = Some (Selector s) -> steps cs s = Some s' ->
  chain x cs h = (Normal x, <[x := Selector s']> h).
Proof.
  induction cs as [|c cs IH]; intros x h s s' Hx.
  - cbn. intros [= <-]. unfold ret. now rewrite insert_id.
  - cbn [chain steps]. unfold bind. rewrite method_unfold, Hx.
    destruct (verdict (target c) s); [discriminate|].
    intros E. erewrite IH; [|apply lookup_insert_eq|exact E].
    now rewrite insert_insert_eq.
Qed.

Lemma chain_app pre : forall x cs h,
  chain x (pre ++ cs) h = (let! y := chain x pre in chain y cs) h.
Proof.
  induction pre as [|c pre IH]; intros x cs h; [reflexivity|].
  cbn [app chain]. unfold bind.
  destruct (method (target c) x (argument c) h) as [[y|e] h1]; [|reflexivity].
  rewrite IH. reflexivity.
Qed.

(** ** Errors *)

(** C4: a call of a builder operation that raises an exception (the
    duplicate error, the order error, or any other) leaves the store, and
    so every property of the builder, as it was before the call; and the
    exception is the result of every chain in which the call occurs,
    whatever calls are written after it, whether the chain starts at an
    object or at the facade. *)
Theorem error_leaves_builder_unchanged k x v h e h' :
  method k x v h = (Throw e, h') ->
  h' = h /\
  (forall x0 pre cs h0,
     chain x0 pre h0 = (Normal x, h) ->
     chain x0 (pre ++ Call k v :: cs) h0 = (Throw e, h)) /\
  (forall c0 pre cs h0,
     build c0 pre h0 = (Normal x, h) ->
     build c0 (pre ++ Call k v :: cs) h0 = (Throw e, h)).
Proof.
  intros E.
  assert (h' = h) as ->.
  { revert E. rewrite method_unfold.
    destruct (h !! x) as [[s|c]|]; try (now intros [= _ <-]).
    destruct (verdict k s); [now intros [= _ <-]|discriminate]. }
  split; [reflexivity|].
  assert (P : forall x0 pre cs h0,
             chain x0 pre h0 = (Normal x, h) ->
             chain x0 (pre ++ Call k v :: cs) h0 = (Throw e, h)).
  { intros x0 pre cs h0 Hpre. rewrite chain_app. unfold bind at 1.
    rewrite Hpre. cbn [chain target argument]. unfold bind. now rewrite E. }
  split; [exact P|].
  intros c0 pre cs h0. unfold build, bind.
  destruct (factory (target c0) (argument c0) h0) as [[y|e0] h1];
    [apply P|discriminate].
Qed.

Lemma error_leaves_builder_unchanged_witness :
  method Element 1%positive "p" store_div = (Throw DuplicateError, store_div) /\
  build (Call Element "div") ([] ++ Call Element "p" :: [Call Id "main"]) ∅
  = (Throw DuplicateError, store_div).
Proof.
  split; [vm_compute; reflexivity|].
  apply (error_leaves_builder_unchanged
           Element 1%positive "p" store_div DuplicateError store_div);
    vm_compute; reflexivity.
Defined.

(** ** Rendering is an observation *)

(** C7: [stringify] on a builder returns the rendering of its properties
    and leaves the store as it found it, so no property of the builder
    (or of any other object) changes; two calls in a row return the same
    string. *)
Theorem stringify_pure_idempotent x h s :
  h !! x = Some (Selector s) ->
  CssSelector.stringify x h = (Normal (CssSelector.render s), h) /\
  call_stringify x h = (Normal (CssSelector.render s), h) /\
  (let! a := call_stringify x in
   let! b := call_stringify x in
   ret (a, b)) h
  = (Normal (CssSelector.render s, CssSelector.render s), h).
Proof.
  intros Hx.
  assert (E : call_stringify x h = (Normal (CssSelector.render s), h))
    by now rewrite stringify_unfold, Hx.
  split; [|split; [exact E|]].
  - unfold CssSelector.stringify, CssSelector.self, bind, deref.
    now rewrite Hx.
  - unfold bind. rewrite E. cbv beta iota. now rewrite E.
Qed.

Lemma stringify_pure_idempotent_witness :
  (let! a := call_stringify 1%positive in
   let! b := call_stringify 1%positive in
   ret (a, b)) store_div
  = (Normal ("div", "div"), store_div).
Proof.
  apply (stringify_pure_idempotent 1%positive store_div
           {| cssElement := Some "div"; cssId := None; cssClasses := [];
              cssAttribute := []; cssPseudoClass := [];
              cssPseudoElement := None |}).
  vm_compute; reflexivity.
Defined.

(** ** Strings *)

Lemma append_cons x (a b : string) : String x a +:+ b = String x (a +:+ b).
Proof. reflexivity. Qed.

Lemma append_assoc (a b c : string) : (a +:+ b) +:+ c = a +:+ b +:+ c.
Proof.
  induction a as [|x a IH]; [reflexivity|]. now rewrite !append_cons, IH.
Qed.

Lemma append_nil_r (a : string) : a +:+ "" = a.
Proof.
  induction a as [|x a IH]; [reflexivity|]. now rewrite append_cons, IH.
Qed.

(** ** Combination *)

Lemma stringify_normal x h s :
  (call_stringify x h).1 = Normal s ->
  exists o, h !! x = Some o /\ rendering o = s.
Proof.
  rewrite stringify_unfold. destruct (h !! x) as [o|]; [|discriminate].
  cbn. intros [= <-]. now exists o.
Qed.


(** C5: for operands that render ([sl] and [sr] are what [stringify]
    returns on them, be they builders or earlier results of [combine]) and
    for every combinator, [combine] returns a new object that renders as
    [sl], a space, the combinator, a space, [sr]; with the descendant
    combinator that is three spaces between the operands; and a result
    used as an operand of another [combine], on either side, gives the
    one flat string. *)
Theorem combine_renders_joined l c r h sl sr :
  (call_stringify l h).1 = Normal sl ->
  (call_stringify r h).1 = Normal sr ->
  exists p h',
    cssSelectorBuilder.combine l c r h = (Normal p, h') /\
    h !! p = None /\
    call_stringify p h' = (Normal (sl +:+ " " +:+ c +:+ " " +:+ sr), h') /\
    (c = " " -> call_stringify p h' = (Normal (sl +:+ "   " +:+ sr), h')) /\
    forall q c2 sq,
      (call_stringify q h).1 = Normal sq ->
      (exists p2 h2,
         cssSelectorBuilder.combine q c2 p h' = (Normal p2, h2) /\
         call_stringify p2 h2
         = (Normal (sq +:+ " " +:+ c2 +:+ " "
                       +:+ sl +:+ " " +:+ c +:+ " " +:+ sr), h2)) /\
      (exists p2 h2,
         cssSelectorBuilder.combine p c2 q h' = (Normal p2, h2) /\
         call_stringify p2 h2
         = (Normal (sl +:+ " " +:+ c +:+ " " +:+ sr
                       +:+ " " +:+ c2 +:+ " " +:+ sq), h2)).
Proof.
  intros (ol & Hl & <-)%stringify_normal (or & Hr & <-)%stringify_normal.
  pose proof (fresh_unused h) as Hp.
  set (p := fresh (dom h)) in *.
  set (joined := rendering ol +:+ " " +:+ c +:+ " " +:+ rendering or).
  set (h' := <[p := Combine {| cssString := joined |}]> h).
  assert (Hp' : h' !! p = Some (Combine {| cssString := joined |}))
    by apply lookup_insert_eq.
  assert (S : call_stringify p h' = (Normal joined, h'))
    by now rewrite stringify_unfold, Hp'.
  exists p, h'. split; [now apply combine_unfold|].
  split; [exact Hp|]. split; [exact S|]. split.
  - intros ->. exact S.
  - intros q c2 sq (oq & Hq & <-)%stringify_normal.
    assert (Hq' : h' !! q = Some oq).
    { unfold h'. rewrite lookup_insert_ne; [exact Hq|]. congruence. }
    split; eexists _, _.
    + split; [exact (combine_unfold q c2 p h' _ _ Hq' Hp')|].
      rewrite stringify_unfold, lookup_insert_eq. reflexivity.
    + split; [exact (combine_unfold p c2 q h' _ _ Hp' Hq')|].
      rewrite stringify_unfold, lookup_insert_eq. cbn [rendering cssString].
      unfold joined. now rewrite !append_assoc.
Qed.

Lemma combine_renders_joined_witness :
  exists p h',
    cssSelectorBuilder.combine 1%positive "+" 2%positive store_two
    = (Normal p, h') /\
    call_stringify p h' = (Normal "div#main + table#data", h').
Proof.
  destruct (combine_renders_joined 1%positive "+" 2%positive store_two
              "div#main" "table#data")
    as (p & h' & E & _ & S & _).
  - vm_compute; reflexivity.
  - vm_compute; reflexivity.
  - exists p, h'. split; [exact E|exact S].
Defined.

(** The chain of the class documentation, with its three nested
    combinations. *)
Example documented_combination :
  ((let! a := build (Call Element "div")
                [Call Id "main"; Call Class "container";
                 Call Class "draggable"] in
    let! b := build (Call Element "table") [Call Id "data"] in
    let! c := build (Call Element "tr")
                [Call PseudoClass "nth-of-type(even)"] in
    let! d := build (Call Element "td")
                [Call PseudoClass "nth-of-type(even)"] in
    let! cd := cssSelectorBuilder.combine c " " d in
    let! bcd := cssSelectorBuilder.combine b "~" cd in
    let! abcd := cssSelectorBuilder.combine a "+" bcd in
    call_stringify abcd) ∅).1
  = Normal "div#main.container.draggable + table#data ~ tr:nth-of-type(even)   td:nth-of-type(even)".
Proof. vm_compute. reflexivity. Qed.

(** ** The facade *)

Lemma factory_alone k v h :
  factory k v h =
    (Normal (fresh (dom h)), <[fresh (dom h) := Selector (alone k v)]> h).
Proof. rewrite factory_unfold. now destruct k. Qed.

(** C6: every entry point of the facade returns normally, whatever the
    value and the store.  The object it returns did not exist before the
    call, holds the one part it was asked for and nothing else, and the
    call changes no other object.  The builder of a later call of the
    facade is another object than the builder of an earlier one, and a
    chain of calls on either of them, successful or not, leaves the other
    as it is. *)
Theorem factory_fresh_independent k1 v1 k2 v2 h x1 h1 g x2 h2 :
  factory k1 v1 h = (Normal x1, h1) ->
  is_Some (g !! x1) ->
  factory k2 v2 g = (Normal x2, h2) ->
  (forall k v h0, exists x, (factory k v h0).1 = Normal x) /\
  h !! x1 = None /\ h1 = <[x1 := Selector (alone k1 v1)]> h /\
  g !! x2 = None /\ h2 = <[x2 := Selector (alone k2 v2)]> g /\
  x1 <> x2 /\
  forall cs h',
    (chain x1 cs h').2 !! x2 = h' !! x2 /\
    (chain x2 cs h').2 !! x1 = h' !! x1.
Proof.
  rewrite !factory_alone. intros [= <- <-] Hg [= <- <-].
  pose proof (fresh_unused h) as F1. pose proof (fresh_unused g) as F2.
  assert (N : fresh (dom h) <> fresh (dom g)).
  { intros E. rewrite E, F2 in Hg. now destruct Hg. }
  split; [intros k v h0; rewrite factory_alone; now eexists|].
  repeat (split; [easy|]).
  intros cs h'. split; apply chain_frame; congruence.
Qed.

Lemma factory_fresh_independent_witness :
  (1 <> 2)%positive /\
  (chain 1%positive [Call Class "container"] store_two).2 !! 2%positive
  = store_two !! 2%positive.
Proof.
  destruct (factory_fresh_independent
              Element "div" Element "table" ∅ 1%positive store_div store_div
              2%positive (factory Element "table" store_div).2)
    as (_ & _ & _ & _ & _ & N & F).
  - vm_compute; reflexivity.
  - exists (Selector (alone Element "div")). vm_compute; reflexivity.
  - vm_compute; reflexivity.
  - split; [exact N|]. apply F.
Defined.

(** ** A combined selector is fixed *)

Lemma combine_store l c r h :
  (cssSelectorBuilder.combine l c r h).2 = h \/
  exists o, (cssSelectorBuilder.combine l c r h).2 = <[fresh (dom h) := o]> h.
Proof.
  unfold cssSelectorBuilder.combine, bind. rewrite stringify_unfold.
  destruct (h !! l); [|now left]. cbv beta iota. rewrite stringify_unfold.
  destruct (h !! r); [|now left]. right. now eexists.
Qed.

Lemma perform_keeps_combine a h p c :
  h !! p = Some (Combine c) -> perform h a !! p = Some (Combine c).
Proof.
  intros Hp.
  assert (N : fresh (dom h) <> p).
  { intros <-. now rewrite fresh_unused in Hp. }
  destruct a as [x k v|x|k v|l cb r]; cbn [perform].
  - now apply method_keeps_combine.
  - rewrite stringify_unfold. now destruct (h !! x).
  - rewrite factory_alone. cbn. now rewrite lookup_insert_ne.
  - destruct (combine_store l cb r h) as [->|[o ->]]; [exact Hp|].
    now rewrite lookup_insert_ne.
Qed.

Lemma perform_all_keeps_combine acts : forall h p c,
  h !! p = Some (Combine c) ->
  fold_left perform acts h !! p = Some (Combine c).
Proof.
  induction acts as [|a acts IH]; intros h p c Hp; [exact Hp|].
  cbn [fold_left]. apply IH. now apply perform_keeps_combine.
Qed.

(** C8: the object [combine] returns holds the joined string of the
    renderings its operands had at the time of the call.  After any
    sequence of further actions on any objects (calls of builder methods
    on the operands or on the result itself, successful or not, renderings,
    new builders, new combinations) [stringify] on the result returns that
    same string and changes nothing. *)
Theorem combine_result_fixed l c r h p h1 sl sr acts :
  (call_stringify l h).1 = Normal sl ->
  (call_stringify r h).1 = Normal sr ->
  cssSelectorBuilder.combine l c r h = (Normal p, h1) ->
  let h2 := fold_left perform acts h1 in
  call_stringify p h1 = (Normal (sl +:+ " " +:+ c +:+ " " +:+ sr), h1) /\
  call_stringify p h2 = (Normal (sl +:+ " " +:+ c +:+ " " +:+ sr), h2) /\
  (call_stringify p;; call_stringify p) h2
  = (Normal (sl +:+ " " +:+ c +:+ " " +:+ sr), h2).
Proof.
  intros (ol & Hl & <-)%stringify_normal (or & Hr & <-)%stringify_normal.
  rewrite (combine_unfold l c r h ol or Hl Hr). intros [= <- <-] h2.
  set (joined := rendering ol +:+ " " +:+ c +:+ " " +:+ rendering or).
  assert (H1 : <[fresh (dom h) := Combine {| cssString := joined |}]> h
               !! fresh (dom h) = Some (Combine {| cssString := joined |}))
    by apply lookup_insert_eq.
  assert (H2 : h2 !! fresh (dom h) = Some (Combine {| cssString := joined |}))
    by now apply perform_all_keeps_combine.
  assert (S2 : call_stringify (fresh (dom h)) h2 = (Normal joined, h2))
    by now rewrite stringify_unfold, H2.
  split; [now rewrite stringify_unfold, H1|].
  split; [exact S2|]. unfold bind. now rewrite S2.
Qed.

Lemma combine_result_fixed_witness :
  call_stringify 1%positive store_combined_later
  = (Normal "div#main.container", store_combined_later) /\
  call_stringify 3%positive store_combined_later
  = (Normal "div#main + table#data", store_combined_later).
Proof.
  split; [vm_compute; reflexivity|].
  apply (combine_result_fixed 1%positive "+" 2%positive store_two 3%positive
           store_combined "div#main" "table#data"
           [Invoke 1%positive Class "container";
            Invoke 2%positive Element "p"]);
    vm_compute; reflexivity.
Defined.

(** ** The two checks *)

Lemma later_populated_intro k j s :
  rank k < rank j -> populated j s = true -> later_populated k s = true.
Proof.
  intros R P. unfold later_populated. apply existsb_exists. exists j.
  split; [destruct j; cbn; tauto|].
  rewrite P, andb_true_r. now apply Nat.ltb_lt.
Qed.

Lemma truthy_length_snoc (l : list string) v : truthy_length (l ++ [v]) = true.
Proof.
  unfold truthy_length. rewrite length_app. cbn.
  now replace (length l + 1) with (S (length l)) by lia.
Qed.

(** A call that passes its checks empties no category. *)
Lemma populated_step k v s j :
  verdict k s = None ->
  populated j s = true -> populated j (store_part k v s) = true.
Proof.
  intros V P.
  destruct j, k; cbn in *; try assumption; try apply truthy_length_snoc;
    unfold verdict in V; cbn in V; rewrite P in V; discriminate.
Qed.

Lemma steps_populated cs : forall s s' j,
  steps cs s = Some s' -> populated j s = true -> populated j s' = true.
Proof.
  induction cs as [|c cs IH]; intros s s' j; cbn [steps].
  - now intros [= <-].
  - destruct (verdict (target c) s) eqn:V; [discriminate|].
    intros E P. eapply IH; [exact E|]. now apply populated_step.
Qed.

Lemma method_throws k x v h s e :
  h !! x = Some (Selector s) -> verdict k s = Some e ->
  method k x v h = (Throw e, h).
Proof. intros Hx V. now rewrite method_unfold, Hx, V. Qed.

Lemma order_differs_from_duplicate : DuplicateError <> OrderError.
Proof. discriminate. Qed.

(** C10: on a builder whose element (or id) holds a non-empty string and
    one of whose later categories is populated, so that the condition of
    the order check holds as well, a call of [element] (of [id]) throws
    the duplicate error, which is not the order error. *)
Theorem duplicate_check_first k x v h s j :
  h !! x = Some (Selector s) ->
  k = Element \/ k = Id ->
  populated k s = true ->
  rank k < rank j -> populated j s = true ->
  later_populated k s = true /\
  method k x v h = (Throw DuplicateError, h) /\
  method k x v h <> (Throw OrderError, h).
Proof.
  intros Hx Hk P R Pj.
  assert (E : method k x v h = (Throw DuplicateError, h)).
  { apply method_throws with s; [exact Hx|].
    unfold verdict. rewrite P. now destruct Hk as [-> | ->]. }
  split; [now apply later_populated_intro with j|].
  split; [exact E|]. rewrite E. intros [= D].
Qed.

Lemma duplicate_check_first_witness :
  method Element 1%positive "p" store_div_container
  = (Throw DuplicateError, store_div_container).
Proof.
  apply (duplicate_check_first Element 1%positive "p" store_div_container
           {| cssElement := Some "div"; cssId := None;
              cssClasses := ["container"]; cssAttribute := [];
              cssPseudoClass := []; cssPseudoElement := None |} Class).
  - vm_compute; reflexivity.
  - left; reflexivity.
  - reflexivity.
  - cbn; lia.
  - reflexivity.
Defined.

(** C2, as the code has it: when a category later than the one a call
    targets is populated (an array that is not empty, an id or a
    pseudo-element that holds a non-empty string), the call throws and
    changes nothing; it throws the order error, unless it targets the
    element or the id and that property already holds a non-empty string,
    in which case it throws the duplicate error.  In particular [element],
    called on a builder after a successful [class] and any successful
    calls that follow it, throws: the order error when the builder has no
    non-empty element, the duplicate error when it has one. *)
Theorem later_category_populated_throws :
  (forall k x v h s j,
     h !! x = Some (Selector s) ->
     rank k < rank j -> populated j s = true ->
     method k x v h
     = (Throw (if singleton k && populated k s
               then DuplicateError else OrderError), h)) /\
  (forall x v h y h1 cs z h2 w,
     CssSelector.class x v h = (Normal y, h1) ->
     chain y cs h1 = (Normal z, h2) ->
     exists s2,
       h2 !! z = Some (Selector s2) /\
       CssSelector.element z w h2
       = (Throw (if truthy (cssElement s2)
                 then DuplicateError else OrderError), h2)).
Proof.
  assert (G : forall k x v h s j,
             h !! x = Some (Selector s) ->
             rank k < rank j -> populated j s = true ->
             method k x v h
             = (Throw (if singleton k && populated k s
                       then DuplicateError else OrderError), h)).
  { intros k x v h s j Hx R P. apply method_throws with s; [exact Hx|].
    unfold verdict. destruct (singleton k && populated k s); [reflexivity|].
    now rewrite (later_populated_intro k j s R P). }
  split; [exact G|].
  intros x v h y h1 cs z h2 w Hc Hch.
  change (CssSelector.class x v h) with (method Class x v h) in Hc.
  revert Hc. rewrite method_unfold.
  destruct (h !! x) as [[s|c]|] eqn:Hx; try discriminate.
  destruct (verdict Class s) eqn:V; [discriminate|]. intros [= <- <-].
  destruct (chain_normal cs x _ _ z h2 (lookup_insert_eq _ _ _) Hch)
    as [-> (s2 & Hs & ->)].
  exists s2. split; [apply lookup_insert_eq|].
  apply (G Element x w _ s2 Class); [apply lookup_insert_eq|cbn; lia|].
  eapply steps_populated; [exact Hs|]. apply truthy_length_snoc.
Qed.

Lemma later_category_populated_throws_witness :
  method Id 1%positive "main" store_div_container
  = (Throw OrderError, store_div_container).
Proof.
  apply (proj1 later_category_populated_throws Id 1%positive "main"
           store_div_container
           {| cssElement := Some "div"; cssId := None;
              cssClasses := ["container"]; cssAttribute := [];
              cssPseudoClass := []; cssPseudoElement := None |} Class).
  - vm_compute; reflexivity.
  - cbn; lia.
  - reflexivity.
Defined.

(** C2 as stated fails: [element('div').class('container')] has a class,
    and [element] on it does not throw the order error but the duplicate
    error. *)
Lemma element_after_class_throws_duplicate :
  populated Class
    {| cssElement := Some "div"; cssId := None;
       cssClasses := ["container"]; cssAttribute := [];
       cssPseudoClass := []; cssPseudoElement := None |} = true /\
  build (Call Element "div") [Call Class "container"; Call Element "p"] ∅
  = (Throw DuplicateError, store_div_container) /\
  ~ (build (Call Element "div") [Call Class "container"; Call Element "p"] ∅).1
    = Throw OrderError.
Proof.
  split; [reflexivity|]. split; [vm_compute; reflexivity|].
  vm_compute. discriminate.
Qed.

(** C3, as the code has it: after a successful call that gives a
    singleton category (element, id, pseudo-element) a non-empty string,
    and after any successful calls that follow it on the same builder, a
    call that supplies a second value for that category throws the
    duplicate error and changes nothing. *)
Theorem second_singleton_value_throws k x v h y h1 cs z h2 w :
  singleton k = true ->
  v <> "" ->
  method k x v h = (Normal y, h1) ->
  chain y cs h1 = (Normal z, h2) ->
  method k z w h2 = (Throw DuplicateError, h2).
Proof.
  intros Sk Nv. rewrite method_unfold.
  destruct (h !! x) as [[s|c]|] eqn:Hx; try discriminate.
  destruct (verdict k s) eqn:V; [discriminate|]. intros [= <- <-] Hch.
  destruct (chain_normal cs x _ _ z h2 (lookup_insert_eq _ _ _) Hch)
    as [-> (s2 & Hs & ->)].
  apply method_throws with s2; [apply lookup_insert_eq|].
  unfold verdict. rewrite Sk.
  rewrite (steps_populated cs _ s2 k Hs); [reflexivity|].
  destruct k; try discriminate; cbn; now destruct v.
Qed.

Lemma second_singleton_value_throws_witness :
  method Id 1%positive "data"
    (build (Call Id "main") [Call Class "container"] ∅).2
  = (Throw DuplicateError,
     (build (Call Id "main") [Call Class "container"] ∅).2).
Proof.
  apply (second_singleton_value_throws Id 1%positive "main"
           (CssSelector.constructor ∅).2 1%positive
           (cssSelectorBuilder.id "main" ∅).2 [Call Class "container"]
           1%positive).
  - reflexivity.
  - discriminate.
  - vm_compute; reflexivity.
  - vm_compute; reflexivity.
Defined.

(** C3 as stated fails: [id('')] stores the empty string, and the second
    [id] on that builder returns normally and stores its value. *)
Lemma second_id_after_empty_id_succeeds :
  build (Call Id "") [Call Id "main"] ∅
  = (Normal 1%positive, {[ 1%positive := Selector (alone Id "main") ]}) /\
  (build (Call Id "") [Call Id "main"] ∅).1 <> Throw DuplicateError.
Proof. split; [vm_compute; reflexivity|vm_compute; discriminate]. Qed.

(** ** The empty string *)

Lemma later_populated_store_part k v s :
  later_populated k (store_part k v s) = later_populated k s.
Proof. now destruct k. Qed.

Lemma verdict_none_later k s :
  verdict k s = None -> later_populated k s = false.
Proof.
  unfold verdict. destruct (singleton k && populated k s); [discriminate|].
  now destruct (later_populated k s).
Qed.

(** C9, as the code has it: on a builder whose element, id or
    pseudo-element holds the empty string, a call for that category never
    throws the duplicate error.  It returns normally and stores the new
    value when no later category is populated, which is always so for the
    pseudo-element, and also for the call that comes right after the
    successful call that stored the empty string; it throws the order
    error when a later category is populated.  [stringify] renders the
    builder as it would without a value for that category. *)
Theorem empty_string_singleton_is_absent k x v h s :
  h !! x = Some (Selector s) ->
  singleton k = true ->
  stored k s = Some "" ->
  (method k x v h).1 <> Throw DuplicateError /\
  (later_populated k s = false ->
   method k x v h = (Normal x, <[x := Selector (store_part k v s)]> h) /\
   stored k (store_part k v s) = Some v) /\
  (later_populated k s = true -> method k x v h = (Throw OrderError, h)) /\
  (k = PseudoElement -> later_populated k s = false) /\
  (forall x0 h0,
     method k x0 "" h0 = (Normal x, h) -> later_populated k s = false) /\
  CssSelector.render s = CssSelector.render (unset k s).
Proof.
  intros Hx Sk St.
  assert (P : populated k s = false)
    by (destruct k; try discriminate; cbn in *; now rewrite St).
  assert (V : verdict k s
              = if later_populated k s then Some OrderError else None)
    by (unfold verdict; now rewrite P, andb_false_r).
  rewrite method_unfold, Hx, V.
  split; [now destruct (later_populated k s)|].
  split; [intros ->; split; [reflexivity|now destruct k]|].
  split; [now intros ->|].
  split; [now intros ->|].
  split.
  - intros x0 h0. rewrite method_unfold.
    destruct (h0 !! x0) as [[s0|c0]|]; try discriminate.
    destruct (verdict k s0) eqn:V0; [discriminate|]. intros [= -> <-].
    rewrite lookup_insert_eq in Hx. injection Hx as <-.
    rewrite later_populated_store_part. now apply verdict_none_later.
  - destruct k; try discriminate; cbn in St;
      unfold CssSelector.render; cbn; now rewrite St.
Qed.

Lemma empty_string_singleton_is_absent_witness :
  method PseudoElement 1%positive "after" store_empty_pseudo
  = (Normal 1%positive,
     <[1%positive := Selector (alone PseudoElement "after")]>
       store_empty_pseudo) /\
  call_stringify 1%positive store_empty_pseudo
  = (Normal "", store_empty_pseudo).
Proof.
  destruct (empty_string_singleton_is_absent PseudoElement 1%positive "after"
              store_empty_pseudo (alone PseudoElement ""))
    as (_ & S & _).
  - vm_compute; reflexivity.
  - reflexivity.
  - reflexivity.
  - split; [|vm_compute; reflexivity].
    destruct (S eq_refl) as [E _]. exact E.
Defined.

(** C9 as stated fails for a later call that is not the next one: after
    [element('').class('container')] the element holds the empty string,
    and [element('div')] does not return normally: it throws the order
    error, and the element stays empty. *)
Lemma element_after_empty_element_and_class_throws :
  store_empty_element_container !! 1%positive
  = Some (Selector {| cssElement := Some ""; cssId := None;
                      cssClasses := ["container"]; cssAttribute := [];
                      cssPseudoClass := []; cssPseudoElement := None |}) /\
  CssSelector.element 1%positive "div" store_empty_element_container
  = (Throw OrderError, store_empty_element_container) /\
  ~ (exists y h',
       CssSelector.element 1%positive "div" store_empty_element_container
       = (Normal y, h')).
Proof.
  split; [vm_compute; reflexivity|].
  assert (E : CssSelector.element 1%positive "div"
                store_empty_element_container
              = (Throw OrderError, store_empty_element_container))
    by (vm_compute; reflexivity).
  split; [exact E|]. intros (y & h' & N). rewrite E in N. discriminate.
Qed.

(** ** Rendering a chain *)

Lemma fold_left_append (f : string -> string) l : forall a,
  fold_left (fun string e => string +:+ f e) l a = a +:+ join (map f l).
Proof.
  induction l as [|e l IH]; intros a; cbn [fold_left map join].
  - now rewrite append_nil_r.
  - now rewrite IH, append_assoc.
Qed.

Lemma marked_nonempty_truthy marker v :
  marked_nonempty marker v
  = if truthy v then marker +:+ to_string v else "".
Proof. now destruct v as [[|a s]|]. Qed.

Lemma render_parts s :
  CssSelector.render s
  = marked_nonempty "" (cssElement s)
    +:+ marked_nonempty "#" (cssId s)
    +:+ join (map (fun e => "." +:+ e) (cssClasses s))
    +:+ join (map (fun e => "[" +:+ e +:+ "]") (cssAttribute s))
    +:+ join (map (fun e => ":" +:+ e) (cssPseudoClass s))
    +:+ marked_nonempty "::" (cssPseudoElement s).
Proof.
  unfold CssSelector.render. cbv zeta.
  rewrite (fold_left_append (fun e => ":" +:+ e)).
  rewrite (fold_left_append (fun e => "[" +:+ e +:+ "]")).
  rewrite (fold_left_append (fun e => "." +:+ e)).
  rewrite !marked_nonempty_truthy.
  destruct (truthy (cssElement s)), (truthy (cssId s)),
    (truthy (cssPseudoElement s));
    rewrite ?append_assoc, ?append_nil_r; reflexivity.
Qed.

Lemma latest_cons v l old : latest (v :: l) old = latest l (Some v).
Proof. unfold latest. rewrite last_cons. now destruct (last l). Qed.

Lemma steps_properties cs : forall s s',
  steps cs s = Some s' ->
  cssElement s' = latest (values Element cs) (cssElement s) /\
  cssId s' = latest (values Id cs) (cssId s) /\
  cssClasses s' = cssClasses s ++ values Class cs /\
  cssAttribute s' = cssAttribute s ++ values Attr cs /\
  cssPseudoClass s' = cssPseudoClass s ++ values PseudoClass cs /\
  cssPseudoElement s' = latest (values PseudoElement cs) (cssPseudoElement s).
Proof.
  induction cs as [|[k v] cs IH]; intros s s'; cbn [steps target argument].
  - intros [= <-]. cbn. now rewrite !app_nil_r.
  - destruct (verdict k s); [discriminate|]. intros E.
    destruct (IH _ _ E) as (He & Hi & Hc & Ha & Hp & Hq).
    rewrite He, Hi, Hc, Ha, Hp, Hq.
    destruct k; cbn; rewrite ?latest_cons, <- ?app_assoc; repeat split.
Qed.

Lemma latest_none l : latest l None = last l.
Proof. unfold latest. now destruct (last l). Qed.

Lemma rank_inj j k : rank j = rank k -> j = k.
Proof. now destruct j, k. Qed.

Lemma elem_of_values k cs v :
  v ∈ values k cs -> exists d, d ∈ cs /\ target d = k /\ argument d = v.
Proof.
  induction cs as [|c cs IH]; cbn [values]; [now intros ?%elem_of_nil|].
  destruct (Nat.eqb (rank (target c)) (rank k)) eqn:E.
  - intros [->|Hin]%elem_of_cons.
    + exists c. split; [left|]. now apply Nat.eqb_eq, rank_inj in E.
    + destruct (IH Hin) as (d & Hd & Ht). exists d. split; [now right|easy].
  - intros Hin. destruct (IH Hin) as (d & Hd & Ht).
    exists d. split; [now right|easy].
Qed.

Lemma marked_nonempty_last marker k cs :
  singleton k = true ->
  (forall d, d ∈ cs -> singleton (target d) = true -> argument d <> "") ->
  marked_nonempty marker (last (values k cs))
  = marked marker (last (values k cs)).
Proof.
  intros Sk N. destruct (last (values k cs)) as [[|a v]|] eqn:L; try reflexivity.
  apply last_Some_elem_of, elem_of_values in L.
  destruct L as (d & Hd & <- & Hv). now destruct (N d Hd Sk).
Qed.

Lemma build_steps c cs h x h' :
  build c cs h = (Normal x, h') ->
  exists s', steps (c :: cs) empty_props = Some s' /\
             h' !! x = Some (Selector s').
Proof.
  unfold build, bind. rewrite factory_unfold. intros Hch.
  destruct (chain_normal cs _ _ _ x h' (lookup_insert_eq _ _ _) Hch)
    as [-> (s' & Hs & ->)].
  exists s'. split; [|apply lookup_insert_eq].
  cbn [steps]. now rewrite verdict_empty.
Qed.

Lemma later_populated_false k j s :
  later_populated k s = false -> rank k < rank j -> populated j s = false.
Proof.
  intros L R. destruct (populated j s) eqn:P; [|reflexivity].
  now rewrite (later_populated_intro k j s R P) in L.
Qed.

Lemma populated_store_part k v s :
  (singleton k = true -> v <> "") -> populated k (store_part k v s) = true.
Proof.
  intros N.
  destruct k; cbn in *; try apply truthy_length_snoc;
    destruct v; try reflexivity; now destruct N.
Qed.

(** With non-empty values for the singleton categories, the checks let
    through no call that is out of order: a chain that returns normally
    respects the order of the categories. *)
Lemma steps_ordered cs : forall s s',
  steps cs s = Some s' ->
  (forall d, d ∈ cs -> singleton (target d) = true -> argument d <> "") ->
  ordered cs = true.
Proof.
  induction cs as [|c cs IH]; intros s s' Hs N; [reflexivity|].
  cbn [steps] in Hs. destruct (verdict (target c) s); [discriminate|].
  assert (O : ordered cs = true).
  { eapply IH; [exact Hs|]. intros d Hd. apply N. now right. }
  destruct cs as [|d cs']; [reflexivity|].
  change (ordered (c :: d :: cs'))
    with (Nat.leb (rank (target c)) (rank (target d)) && ordered (d :: cs')).
  rewrite O, andb_true_r.
  cbn [steps] in Hs.
  destruct (verdict (target d) _) eqn:V; [discriminate|].
  apply verdict_none_later in V. apply Nat.leb_le.
  destruct (le_lt_dec (rank (target c)) (rank (target d))) as [L|L];
    [exact L|].
  pose proof (populated_store_part (target c) (argument c) s) as P.
  rewrite (later_populated_false _ (target c) _ V L) in P.
  discriminate P. apply N. left.
Qed.

Lemma successful_build_ordered c cs h x h' :
  build c cs h = (Normal x, h') ->
  (forall d, d ∈ c :: cs -> singleton (target d) = true -> argument d <> "") ->
  ordered (c :: cs) = true.
Proof.
  intros (s' & Hs & _)%build_steps. now apply steps_ordered with empty_props s'.
Qed.

(** C1, as the code has it: for a chain of calls that starts at the facade,
    respects the order of the categories and returns normally, [stringify]
    on the builder returns the parts in the fixed order of the categories:
    the element bare, [#] and the id, [.] and each class, each attribute
    in brackets, [:] and each pseudo-class, [::] and the pseudo-element,
    the repeatable ones in the order of their calls; the part of the
    element, of the id and of the pseudo-element is left out when the
    category got no value or got the empty string.  When no call for one
    of these three passes the empty string, that is the rendering of the
    specification. *)
Theorem stringify_of_chain c cs h x h' :
  ordered (c :: cs) = true ->
  build c cs h = (Normal x, h') ->
  call_stringify x h' = (Normal (rendering_of_calls (c :: cs)), h') /\
  ((forall d, d ∈ c :: cs -> singleton (target d) = true -> argument d <> "") ->
   call_stringify x h' = (Normal (claimed_rendering (c :: cs)), h')).
Proof.
  intros _ (s' & Hs & Hx)%build_steps.
  assert (E : call_stringify x h'
              = (Normal (rendering_of_calls (c :: cs)), h')).
  { rewrite stringify_unfold, Hx. cbn [rendering]. rewrite render_parts.
    destruct (steps_properties _ _ _ Hs) as (He & Hi & Hc & Ha & Hp & Hq).
    rewrite He, Hi, Hc, Ha, Hp, Hq. cbn [empty_props cssElement cssId
      cssClasses cssAttribute cssPseudoClass cssPseudoElement app].
    now rewrite !latest_none. }
  split; [exact E|]. intros N. rewrite E.
  unfold rendering_of_calls, claimed_rendering.
  now rewrite !marked_nonempty_last.
Qed.

Lemma stringify_of_chain_witness :
  call_stringify 1%positive
    (build (Call Id "main") [Call Class "container"; Call Class "editable"] ∅).2
  = (Normal "#main.container.editable",
     (build (Call Id "main")
        [Call Class "container"; Call Class "editable"] ∅).2).
Proof.
  destruct (stringify_of_chain (Call Id "main")
              [Call Class "container"; Call Class "editable"] ∅ 1%positive
              (build (Call Id "main")
                 [Call Class "container"; Call Class "editable"] ∅).2)
    as [E _].
  - reflexivity.
  - vm_compute; reflexivity.
  - exact E.
Defined.

(** C1 as stated fails: the chain [id('')] returns normally and respects
    the order, the specification's rendering of it is [#], and
    [stringify] returns the empty string. *)
Lemma stringify_of_empty_id_is_empty :
  ordered [Call Id ""] = true /\
  build (Call Id "") [] ∅ = (Normal 1%positive, store_empty_id) /\
  claimed_rendering [Call Id ""] = "#" /\
  call_stringify 1%positive store_empty_id = (Normal "", store_empty_id) /\
  call_stringify 1%positive store_empty_id
  <> (Normal (claimed_rendering [Call Id ""]), store_empty_id).
Proof.
  split; [reflexivity|]. split; [vm_compute; reflexivity|].
  split; [reflexivity|].
  assert (E : call_stringify 1%positive store_empty_id
              = (Normal "", store_empty_id))
    by (vm_compute; reflexivity).
  split; [exact E|]. rewrite E. vm_compute. discriminate.
Qed.

(** * Further properties of the builder *)

(** ** When a call is accepted *)

Lemma verdict_none k s :
  verdict k s = None <->
  (singleton k = true -> populated k s = false) /\
  (forall j, rank k < rank j -> populated j s = false).
Proof.
  split.
  - intros V. split.
    + intros Sk. unfold verdict in V. rewrite Sk in V.
      now destruct (populated k s).
    + intros j R. apply later_populated_false with k; [|exact R].
      now apply verdict_none_later.
  - intros [D L]. unfold verdict.
    replace (singleton k && populated k s) with false
      by (destruct (singleton k); [now rewrite D|reflexivity]).
    destruct (later_populated k s) eqn:E; [|reflexivity].
    apply existsb_exists in E. destruct E as (j & _ & E).
    apply andb_true_iff in E. destruct E as [R%Nat.ltb_lt P].
    now rewrite (L j R) in P.
Qed.

(** X1: on a builder, a call for a category returns normally exactly when
    that category, if it is the element, the id or the pseudo-element, is
    not populated, and no later category is populated; it then returns the
    receiver, with the value stored. *)
Theorem call_accepted_iff k x v h s :
  h !! x = Some (Selector s) ->
  ((exists y h', method k x v h = (Normal y, h')) <->
   (singleton k = true -> populated k s = false) /\
   (forall j, rank k < rank j -> populated j s = false)) /\
  ((exists y h', method k x v h = (Normal y, h')) ->
   method k x v h = (Normal x, <[x := Selector (store_part k v s)]> h)).
Proof.
  intros Hx. rewrite <- verdict_none, method_unfold, Hx.
  destruct (verdict k s) as [e|]; split; try split;
    try (intros (y & h' & [=])); try discriminate; try reflexivity;
    try (intros _; now eexists _, _).
Qed.

Lemma call_accepted_iff_witness :
  exists y h',
    method Attr 1%positive "href" store_div_container = (Normal y, h').
Proof.
  destruct (call_accepted_iff Attr 1%positive "href" store_div_container
              {| cssElement := Some "div"; cssId := None;
                 cssClasses := ["container"]; cssAttribute := [];
                 cssPseudoClass := []; cssPseudoElement := None |})
    as [[_ A] _].
  - vm_compute; reflexivity.
  - apply A. split; [discriminate|].
    intros [] R; cbn in R; try lia; reflexivity.
Defined.

(** ** Mutation in place *)

(** X2: a builder method that returns normally returns its receiver, not
    a copy of it; it creates no object and changes no object other than
    the receiver.  So every reference to the builder sees the part that a
    chained call added. *)
Theorem method_mutates_in_place k x v h y h' :
  method k x v h = (Normal y, h') ->
  y = x /\
  dom h' = dom h /\
  (forall z, z <> x -> h' !! z = h !! z) /\
  call_stringify x h' = call_stringify y h'.
Proof.
  rewrite method_unfold.
  destruct (h !! x) as [[s|c]|] eqn:Hx; try discriminate.
  destruct (verdict k s); [discriminate|]. intros [= <- <-].
  split; [reflexivity|]. split.
  - apply dom_insert_lookup_L. now rewrite Hx.
  - split; [|reflexivity]. intros z N. now apply lookup_insert_ne.
Qed.

Lemma method_mutates_in_place_witness :
  dom (method Class 1%positive "container" store_div).2 = dom store_div.
Proof.
  destruct (method_mutates_in_place Class 1%positive "container" store_div
              1%positive (method Class 1%positive "container" store_div).2)
    as (_ & D & _).
  - vm_compute; reflexivity.
  - exact D.
Defined.

(** ** Which chains are accepted *)

Lemma ordered_tail c cs : ordered (c :: cs) = true -> ordered cs = true.
Proof.
  destruct cs as [|d cs]; [reflexivity|].
  change (ordered (c :: d :: cs))
    with (Nat.leb (rank (target c)) (rank (target d)) && ordered (d :: cs)).
  now intros [_ O]%andb_true_iff.
Qed.

Lemma ordered_head cs : forall c d,
  ordered (c :: cs) = true -> d ∈ cs -> rank (target c) <= rank (target d).
Proof.
  induction cs as [|e cs IH]; intros c d O Hd; [now apply elem_of_nil in Hd|].
  change (ordered (c :: e :: cs))
    with (Nat.leb (rank (target c)) (rank (target e)) && ordered (e :: cs)) in O.
  apply andb_true_iff in O. destruct O as [L%Nat.leb_le O].
  apply elem_of_cons in Hd. destruct Hd as [->|Hd]; [exact L|].
  pose proof (IH e d O Hd). lia.
Qed.

Lemma values_nil_no_call k cs d :
  values k cs = [] -> d ∈ cs -> target d <> k.
Proof.
  induction cs as [|c cs IH]; [now intros _ ?%elem_of_nil|].
  cbn [values]. destruct (Nat.eqb (rank (target c)) (rank k)) eqn:E;
    [discriminate|].
  intros V [->|Hd]%elem_of_cons; [|now apply IH].
  intros <-. now rewrite Nat.eqb_refl in E.
Qed.

Lemma once_tail k c cs : once k (c :: cs) = true -> once k cs = true.
Proof.
  unfold once. cbn [values].
  destruct (Nat.eqb (rank (target c)) (rank k)); [|easy].
  cbn [length]. intros L%Nat.leb_le. apply Nat.leb_le. lia.
Qed.

Lemma once_head c cs :
  once (target c) (c :: cs) = true -> values (target c) cs = [].
Proof.
  unfold once. cbn [values]. rewrite Nat.eqb_refl. cbn [length].
  intros L%Nat.leb_le. destruct (values (target c) cs); [reflexivity|].
  cbn in L. lia.
Qed.

Lemma populated_store_part_inv k v s j :
  populated j (store_part k v s) = true -> populated j s = true \/ j = k.
Proof. destruct j, k; cbn; auto. Qed.

(** A chain goes through from properties whose populated categories come
    no later than its calls and are not singleton categories it targets. *)
Lemma steps_accepts cs : forall s,
  ordered cs = true ->
  (forall k, singleton k = true -> once k cs = true) ->
  (forall j d, populated j s = true -> d ∈ cs ->
               rank j <= rank (target d) /\
               (singleton j = true -> target d <> j)) ->
  exists s', steps cs s = Some s'.
Proof.
  induction cs as [|c cs IH]; intros s O U I; [now exists s|].
  cbn [steps].
  assert (V : verdict (target c) s = None).
  { apply verdict_none. split.
    - intros Sk. destruct (populated (target c) s) eqn:P; [|reflexivity].
      destruct (I _ c P) as [_ N]; [left|]. now destruct (N Sk).
    - intros j R. destruct (populated j s) eqn:P; [|reflexivity].
      destruct (I _ c P) as [L _]; [left|]. lia. }
  rewrite V. apply IH.
  - now apply ordered_tail with c.
  - intros k Sk. apply once_tail with c. now apply U.
  - intros j d P Hd.
    apply populated_store_part_inv in P. destruct P as [P| ->].
    + apply I; [exact P|now right].
    + split; [now apply ordered_head with cs|].
      intros Sk. apply values_nil_no_call with cs; [|exact Hd].
      apply once_head. now apply U.
Qed.

(** X3: a chain from the facade whose calls are in the order of the
    categories and which has at most one call for the element, for the id
    and for the pseudo-element returns normally, whatever the values are,
    and returns a builder that did not exist before. *)
Theorem well_formed_chain_accepted c cs h :
  well_formed (c :: cs) = true ->
  exists x h', build c cs h = (Normal x, h') /\ h !! x = None.
Proof.
  unfold well_formed. intros [[[O E]%andb_true_iff I]%andb_true_iff P]%andb_true_iff.
  destruct (steps_accepts (c :: cs) empty_props O) as [s' Hs].
  - now intros [].
  - intros j d Pj. now destruct j.
  - cbn [steps] in Hs. rewrite verdict_empty in Hs.
    exists (fresh (dom h)). eexists. split; [|apply fresh_unused].
    unfold build, bind. rewrite factory_unfold.
    erewrite chain_steps; [reflexivity|apply lookup_insert_eq|exact Hs].
Qed.

Lemma well_formed_chain_accepted_witness :
  exists x h',
    build (Call Element "") [Call Id ""; Call Class "a"; Call Class "a";
                             Call PseudoElement "after"] ∅
    = (Normal x, h') /\ (∅ : gmap positive object) !! x = None.
Proof.
  apply (well_formed_chain_accepted (Call Element "")
           [Call Id ""; Call Class "a"; Call Class "a";
            Call PseudoElement "after"] ∅).
  reflexivity.
Defined.

Lemma steps_once k cs : forall s s',
  singleton k = true ->
  steps cs s = Some s' ->
  (forall d, d ∈ cs -> singleton (target d) = true -> argument d <> "") ->
  (populated k s = true -> values k cs = []) /\ once k cs = true.
Proof.
  induction cs as [|c cs IH]; intros s s' Sk Hs N; [easy|].
  cbn [steps] in Hs.
  destruct (verdict (target c) s) eqn:V; [discriminate|].
  destruct (IH _ _ Sk Hs) as [Z U]; [intros d Hd; apply N; now right|].
  unfold once in *. cbn [values].
  destruct (Nat.eqb (rank (target c)) (rank k)) eqn:E.
  - apply Nat.eqb_eq, rank_inj in E. subst k.
    apply verdict_none in V. destruct V as [D _].
    split; [intros P; now rewrite (D Sk) in P|].
    rewrite Z; [reflexivity|]. apply populated_store_part.
    intros _. apply N; [left|exact Sk].
  - split; [|exact U]. intros P. apply Z. now apply populated_step.
Qed.

(** X4: when no call for the element, the id or the pseudo-element passes
    the empty string, a chain from the facade that returns normally has
    its calls in the order of the categories and has at most one call for
    each of these three. *)
Theorem accepted_chain_well_formed c cs h x h' :
  (forall d, d ∈ c :: cs -> singleton (target d) = true -> argument d <> "") ->
  build c cs h = (Normal x, h') ->
  well_formed (c :: cs) = true.
Proof.
  intros N (s' & Hs & _)%build_steps. unfold well_formed.
  rewrite (steps_ordered _ _ _ Hs N).
  now rewrite (proj2 (steps_once Element _ _ _ eq_refl Hs N)),
    (proj2 (steps_once Id _ _ _ eq_refl Hs N)),
    (proj2 (steps_once PseudoElement _ _ _ eq_refl Hs N)).
Qed.

Lemma accepted_chain_well_formed_witness :
  well_formed [Call Element "div"; Call Id "main"; Call Class "container"]
  = true.
Proof.
  apply (accepted_chain_well_formed (Call Element "div")
           [Call Id "main"; Call Class "container"] ∅ 1%positive
           (build (Call Element "div")
              [Call Id "main"; Call Class "container"] ∅).2).
  - intros d Hd _.
    repeat (apply elem_of_cons in Hd; destruct Hd as [->|Hd];
            [discriminate|]).
    now apply elem_of_nil in Hd.
  - vm_compute; reflexivity.
Defined.

(** ** Each accepted call appends its part *)

Lemma truthy_length_nil (l : list string) : truthy_length l = false -> l = [].
Proof. now destruct l. Qed.

Lemma marked_nonempty_falsy marker o :
  truthy o = false -> marked_nonempty marker o = "".
Proof. now destruct o as [[|a s]|]. Qed.

Lemma join_app l1 l2 : join (l1 ++ l2) = join l1 +:+ join l2.
Proof.
  induction l1 as [|a l1 IH]; [reflexivity|].
  cbn [app join]. now rewrite IH, append_assoc.
Qed.

Lemma marked_nonempty_bare v : marked_nonempty "" (Some v) = v.
Proof. now destruct v. Qed.

(** The checks let a call through only when everything that the rendering
    puts after its part is empty. *)
Lemma render_store_part k v s :
  verdict k s = None ->
  CssSelector.render (store_part k v s)
  = CssSelector.render s +:+ fragment (Call k v).
Proof.
  intros [D L]%verdict_none. rewrite !render_parts.
  unfold fragment. cbn [target argument].
  destruct k; cbn [store_part cssElement cssId cssClasses cssAttribute
                     cssPseudoClass cssPseudoElement];
    try (specialize (D eq_refl); cbn in D);
    repeat first
      [ rewrite (marked_nonempty_falsy "" (cssElement s)) by
          (first [exact D | exact (L Element ltac:(cbn; lia))])
      | rewrite (marked_nonempty_falsy "#" (cssId s)) by
          (first [exact D | exact (L Id ltac:(cbn; lia))])
      | rewrite (marked_nonempty_falsy "::" (cssPseudoElement s)) by
          (first [exact D | exact (L PseudoElement ltac:(cbn; lia))])
      | rewrite (truthy_length_nil (cssClasses s)) by
          exact (L Class ltac:(cbn; lia))
      | rewrite (truthy_length_nil (cssAttribute s)) by
          exact (L Attr ltac:(cbn; lia))
      | rewrite (truthy_length_nil (cssPseudoClass s)) by
          exact (L PseudoClass ltac:(cbn; lia)) ];
    rewrite ?map_app, ?join_app; cbn [map join app];
    rewrite ?marked_nonempty_bare, ?append_assoc, ?append_nil_r;
    reflexivity.
Qed.

(** X5: a call that a builder accepts appends its part to the rendering:
    [stringify] after the call returns what it returned before the call,
    followed by the value with the marker of its category (and by nothing
    for an id or a pseudo-element that is the empty string). *)
Theorem accepted_call_appends_fragment k x v h r y h' :
  (call_stringify x h).1 = Normal r ->
  method k x v h = (Normal y, h') ->
  call_stringify y h' = (Normal (r +:+ fragment (Call k v)), h').
Proof.
  intros (o & Hx & <-)%stringify_normal. rewrite method_unfold, Hx.
  destruct o as [s|c]; [|discriminate].
  destruct (verdict k s) eqn:V; [discriminate|]. intros [= <- <-].
  rewrite stringify_unfold, lookup_insert_eq. cbn [rendering].
  now rewrite render_store_part.
Qed.

Lemma accepted_call_appends_fragment_witness :
  call_stringify 1%positive
    (method Attr 1%positive "href" store_div_container).2
  = (Normal "div.container[href]",
     (method Attr 1%positive "href" store_div_container).2).
Proof.
  apply (accepted_call_appends_fragment Attr 1%positive "href"
           store_div_container "div.container" 1%positive);
    vm_compute; reflexivity.
Defined.

Lemma steps_render cs : forall s s',
  steps cs s = Some s' ->
  CssSelector.render s' = CssSelector.render s +:+ join (map fragment cs).
Proof.
  induction cs as [|[k v] cs IH]; intros s s'; cbn [steps target argument].
  - intros [= <-]. cbn. now rewrite append_nil_r.
  - destruct (verdict k s) eqn:V; [discriminate|]. intros E.
    rewrite (IH _ _ E), render_store_part by exact V.
    cbn [map join]. now rewrite append_assoc.
Qed.

(** X6: for every chain from the facade that returns normally, in order
    or not, with empty values or not, [stringify] returns the parts of
    the calls one after the other in the order of the calls. *)
Theorem stringify_is_fragments_in_call_order c cs h x h' :
  build c cs h = (Normal x, h') ->
  call_stringify x h' = (Normal (join (map fragment (c :: cs))), h').
Proof.
  intros (s' & Hs & Hx)%build_steps.
  rewrite stringify_unfold, Hx. cbn [rendering].
  now rewrite (steps_render _ _ _ Hs).
Qed.

Lemma stringify_is_fragments_in_call_order_witness :
  call_stringify 1%positive (build (Call Id "") [Call Element "p"] ∅).2
  = (Normal "p", (build (Call Id "") [Call Element "p"] ∅).2).
Proof.
  apply (stringify_is_fragments_in_call_order (Call Id "")
           [Call Element "p"] ∅ 1%positive).
  vm_compute; reflexivity.
Defined.

(** ** The pseudo-element closes a builder *)

(** X7: after a call of [pseudoElement] with a non-empty value has
    returned, every further call on the builder throws, the duplicate
    error or the order error, and so does every chain of calls; the
    builder stays as it is. *)
Theorem pseudo_element_closes_builder x v h y h1 k w cs :
  v <> "" ->
  CssSelector.pseudoElement x v h = (Normal y, h1) ->
  exists e,
    (e = DuplicateError \/ e = OrderError) /\
    method k y w h1 = (Throw e, h1) /\
    chain y (Call k w :: cs) h1 = (Throw e, h1).
Proof.
  intros Nv E.
  change (CssSelector.pseudoElement x v h)
    with (method PseudoElement x v h) in E.
  revert E. rewrite method_unfold.
  destruct (h !! x) as [[s|c]|] eqn:Hx; try discriminate.
  destruct (verdict PseudoElement s); [discriminate|]. intros [= <- <-].
  set (s1 := store_part PseudoElement v s).
  assert (P : populated PseudoElement s1 = true) by now destruct v.
  assert (V : exists e, (e = DuplicateError \/ e = OrderError) /\
                        verdict k s1 = Some e).
  { unfold verdict. destruct (singleton k && populated k s1) eqn:D;
      [now eexists; split; [left|]|].
    exists OrderError. split; [now right|].
    rewrite (later_populated_intro k PseudoElement s1); [reflexivity| |exact P].
    destruct k; cbn; try lia. rewrite P in D. discriminate. }
  destruct V as (e & He & V). exists e. split; [exact He|].
  assert (M : method k x w (<[x := Selector s1]> h)
              = (Throw e, <[x := Selector s1]> h))
    by (apply method_throws with s1; [apply lookup_insert_eq|exact V]).
  split; [exact M|]. cbn [chain target argument]. unfold bind.
  unfold s1 in M. cbn [store_part] in M. now rewrite M.
Qed.

Lemma pseudo_element_closes_builder_witness :
  exists e,
    (e = DuplicateError \/ e = OrderError) /\
    method Class 1%positive "container"
      (cssSelectorBuilder.pseudoElement "after" ∅).2
    = (Throw e, (cssSelectorBuilder.pseudoElement "after" ∅).2) /\
    chain 1%positive [Call Class "container"; Call Id "main"]
      (cssSelectorBuilder.pseudoElement "after" ∅).2
    = (Throw e, (cssSelectorBuilder.pseudoElement "after" ∅).2).
Proof.
  apply (pseudo_element_closes_builder 1%positive "after"
           (CssSelector.constructor ∅).2 1%positive
           (cssSelectorBuilder.pseudoElement "after" ∅).2
           Class "container" [Call Id "main"]).
  - discriminate.
  - vm_compute; reflexivity.
Defined.

(** ** The repeatable categories *)

Lemma steps_repeat k vs : forall s,
  singleton k = false -> later_populated k s = false ->
  exists s', steps (map (Call k) vs) s = Some s'.
Proof.
  induction vs as [|w vs IH]; intros s Sk L; [now exists s|].
  cbn [map steps target argument]. unfold verdict. rewrite Sk, L. cbn.
  apply IH; [exact Sk|]. now rewrite later_populated_store_part.
Qed.

(** X8: a class, an attribute and a pseudo-class can be given any number
    of times: after a call for one of these categories has returned, a
    chain of any number of calls for the same category returns normally,
    and [stringify] then returns the earlier rendering followed by the
    parts of these calls in their order. *)
Theorem repeatable_category_repeats k x v h y h1 r vs :
  singleton k = false ->
  method k x v h = (Normal y, h1) ->
  (call_stringify y h1).1 = Normal r ->
  exists h2,
    chain y (map (Call k) vs) h1 = (Normal y, h2) /\
    call_stringify y h2
    = (Normal (r +:+ join (map (fun w => fragment (Call k w)) vs)), h2).
Proof.
  intros Sk. rewrite method_unfold.
  destruct (h !! x) as [[s|c]|] eqn:Hx; try discriminate.
  destruct (verdict k s) eqn:V; [discriminate|]. intros [= <- <-].
  rewrite stringify_unfold, lookup_insert_eq. cbn. intros [= <-].
  destruct (steps_repeat k vs (store_part k v s) Sk) as [s2 Hs].
  { rewrite later_populated_store_part. now apply verdict_none_later. }
  eexists. split.
  - eapply chain_steps; [apply lookup_insert_eq|exact Hs].
  - rewrite stringify_unfold, lookup_insert_eq. cbn [rendering].
    now rewrite (steps_render _ _ _ Hs), map_map.
Qed.

Lemma repeatable_category_repeats_witness :
  exists h2,
    chain 1%positive (map (Call Class) ["a"; "b"; "a"]) store_div_container
    = (Normal 1%positive, h2) /\
    call_stringify 1%positive h2 = (Normal "div.container.a.b.a", h2).
Proof.
  apply (repeatable_category_repeats Class 1%positive "container" store_div
           1%positive store_div_container "div.container" ["a"; "b"; "a"]).
  - reflexivity.
  - vm_compute; reflexivity.
  - vm_compute; reflexivity.
Defined.

(** ** More on combination *)

Lemma combine_normal l c r h p h' :
  cssSelectorBuilder.combine l c r h = (Normal p, h') ->
  exists ol or, h !! l = Some ol /\ h !! r = Some or.
Proof.
  unfold cssSelectorBuilder.combine, bind. rewrite stringify_unfold.
  destruct (h !! l) as [ol|]; [|discriminate]. cbv beta iota.
  rewrite stringify_unfold.
  destruct (h !! r) as [or|]; [|discriminate]. now exists ol, or.
Qed.

(** X9: [combine] creates one object, the result, and changes no object
    that existed before: both operands, and everything else, render after
    the call as they did before it. *)
Theorem combine_leaves_operands l c r h p h' :
  cssSelectorBuilder.combine l c r h = (Normal p, h') ->
  h !! p = None /\
  dom h' = {[p]} ∪ dom h /\
  (forall z o, h !! z = Some o -> h' !! z = Some o) /\
  (forall z, is_Some (h !! z) ->
             (call_stringify z h').1 = (call_stringify z h).1) /\
  (call_stringify l h').1 = (call_stringify l h).1 /\
  (call_stringify r h').1 = (call_stringify r h).1.
Proof.
  intros E. destruct (combine_normal _ _ _ _ _ _ E) as (ol & or & Hl & Hr).
  rewrite (combine_unfold l c r h ol or Hl Hr) in E.
  injection E as <- <-. pose proof (fresh_unused h) as F.
  assert (K : forall z o, h !! z = Some o ->
                <[fresh (dom h) :=
                    Combine {| cssString :=
                      rendering ol +:+ " " +:+ c +:+ " " +:+ rendering or |}]>
                  h !! z = Some o).
  { intros z o Hz. rewrite lookup_insert_ne; [exact Hz|]. congruence. }
  assert (S : forall z, is_Some (h !! z) ->
                (call_stringify z
                   (<[fresh (dom h) :=
                        Combine {| cssString :=
                          rendering ol +:+ " " +:+ c +:+ " " +:+ rendering or |}]>
                      h)).1
                = (call_stringify z h).1).
  { intros z [o Hz]. now rewrite !stringify_unfold, (K z o Hz), Hz. }
  split; [exact F|]. split; [apply dom_insert_L|]. split; [exact K|].
  split; [exact S|]. split; apply S; eauto.
Qed.

Lemma combine_leaves_operands_witness :
  (call_stringify 1%positive store_combined).1
  = (call_stringify 1%positive store_two).1 /\
  (call_stringify 2%positive store_combined).1
  = (call_stringify 2%positive store_two).1.
Proof.
  destruct (combine_leaves_operands 1%positive "+" 2%positive store_two
              3%positive store_combined) as (_ & _ & _ & _ & L & R).
  - vm_compute; reflexivity.
  - split; [exact L|exact R].
Defined.

Lemma combine_then_stringify l c r h ol or :
  h !! l = Some ol -> h !! r = Some or ->
  exists p h',
    cssSelectorBuilder.combine l c r h = (Normal p, h') /\
    h !! p = None /\
    h' = <[p := Combine {| cssString :=
             rendering ol +:+ " " +:+ c +:+ " " +:+ rendering or |}]> h.
Proof.
  intros Hl Hr. exists (fresh (dom h)). eexists.
  split; [exact (combine_unfold l c r h ol or Hl Hr)|].
  split; [apply fresh_unused|reflexivity].
Qed.

(** X10: the rendering of nested combinations does not depend on how they
    are nested: combining [a] with [b] and the result with [d] renders as
    combining [a] with the combination of [b] and [d], namely the three
    renderings with the two padded combinators between them. *)
Theorem combine_rendering_associative a c1 b c2 d h sa sb sd :
  (call_stringify a h).1 = Normal sa ->
  (call_stringify b h).1 = Normal sb ->
  (call_stringify d h).1 = Normal sd ->
  ((let! ab := cssSelectorBuilder.combine a c1 b in
    let! abd := cssSelectorBuilder.combine ab c2 d in
    call_stringify abd) h).1
  = Normal (sa +:+ " " +:+ c1 +:+ " " +:+ sb +:+ " " +:+ c2 +:+ " " +:+ sd) /\
  ((let! bd := cssSelectorBuilder.combine b c2 d in
    let! abd := cssSelectorBuilder.combine a c1 bd in
    call_stringify abd) h).1
  = Normal (sa +:+ " " +:+ c1 +:+ " " +:+ sb +:+ " " +:+ c2 +:+ " " +:+ sd).
Proof.
  intros (oa & Ha & <-)%stringify_normal (ob & Hb & <-)%stringify_normal
         (od & Hd & <-)%stringify_normal.
  split; unfold bind at 1.
  - destruct (combine_then_stringify a c1 b h oa ob Ha Hb)
      as (p & h1 & -> & Hp & ->). unfold bind.
    set (o := Combine {| cssString :=
                rendering oa +:+ " " +:+ c1 +:+ " " +:+ rendering ob |}).
    assert (Hd' : <[p := o]> h !! d = Some od)
      by (rewrite lookup_insert_ne; [exact Hd|congruence]).
    rewrite (combine_unfold p c2 d _ o od (lookup_insert_eq _ _ _) Hd').
    rewrite stringify_unfold, lookup_insert_eq. cbn.
    now rewrite !append_assoc.
  - destruct (combine_then_stringify b c2 d h ob od Hb Hd)
      as (p & h1 & -> & Hp & ->). unfold bind.
    set (o := Combine {| cssString :=
                rendering ob +:+ " " +:+ c2 +:+ " " +:+ rendering od |}).
    assert (Ha' : <[p := o]> h !! a = Some oa)
      by (rewrite lookup_insert_ne; [exact Ha|congruence]).
    rewrite (combine_unfold a c1 p _ oa o Ha' (lookup_insert_eq _ _ _)).
    rewrite stringify_unfold, lookup_insert_eq. reflexivity.
Qed.

Lemma combine_rendering_associative_witness :
  ((let! ab := cssSelectorBuilder.combine 1%positive ">" 2%positive in
    let! abd := cssSelectorBuilder.combine ab " " 1%positive in
    call_stringify abd) store_two).1
  = Normal "div#main > table#data   div#main".
Proof.
  apply (combine_rendering_associative 1%positive ">" 2%positive " "
           1%positive store_two "div#main" "table#data" "div#main");
    vm_compute; reflexivity.
Defined.

(** ** Values are taken as they are *)

Lemma build_then_stringify c cs h s' :
  steps (c :: cs) empty_props = Some s' ->
  ((let! x := build c cs in call_stringify x) h).1
  = Normal (CssSelector.render s').
Proof.
  cbn [steps]. rewrite verdict_empty. intros Hs.
  unfold bind, build, bind. rewrite factory_unfold.
  erewrite chain_steps; [|apply lookup_insert_eq|exact Hs].
  now rewrite stringify_unfold, lookup_insert_eq.
Qed.

(** X11: the builder neither checks nor escapes the values it is given:
    one class whose name contains a dot renders as the two classes on
    either side of the dot, so the rendering does not determine the
    chain that produced it. *)
Theorem class_values_are_not_escaped a b h :
  ((let! x := build (Call Class (a +:+ "." +:+ b)) [] in
    call_stringify x) h).1
  = ((let! x := build (Call Class a) [Call Class b] in
      call_stringify x) h).1 /\
  ((let! x := build (Call Class a) [Call Class b] in
    call_stringify x) h).1
  = Normal ("." +:+ a +:+ "." +:+ b).
Proof.
  rewrite (build_then_stringify (Call Class (a +:+ "." +:+ b)) [] h
             (store_part Class (a +:+ "." +:+ b) empty_props) eq_refl).
  rewrite (build_then_stringify (Call Class a) [Call Class b] h
             (store_part Class b (store_part Class a empty_props)) eq_refl).
  split; reflexivity.
Qed.
